(** * build_resource_pack.py: server.properties patcher and pack identity

    A shallow embedding of [generate_pack_uuid] and
    [update_server_properties] of [build_resource_pack.py], with the parts
    of the Python runtime they rest on: [str] methods, the insertion-ordered
    [dict], UTF-8 text files, SHA-1 and [uuid.uuid5]. *)

From Stdlib Require Import ZArith String Ascii.
From stdpp Require Import base list gmap sets.

Local Open Scope Z_scope.

(** ** Python strings

    A Python [str] is a sequence of Unicode code points; a character is
    modelled by its code point. *)

Module PyStr.

Abbreviation char := Z (only parsing).
Abbreviation str := (list Z) (only parsing).

(** A literal made of ASCII characters. *)
Definition lit (s : string) : str :=
  (fun a => Z.of_nat (nat_of_ascii a)) <$> list_ascii_of_string s.

(** The one-character strings the source spells with an escape. *)
Definition NL : str := [10].          (* '\n' *)
Definition CR : str := [13].          (* '\r' *)

Definition ch_hash : char := 35.      (* '#' *)
Definition ch_minus : char := 45.     (* '-' *)
Definition ch_colon : char := 58.     (* ':' *)
Definition ch_eq : char := 61.        (* '=' *)
Definition ch_backslash : char := 92. (* '\\' *)

(** [str.isspace] on one character: the code points CPython lists in
    [_PyUnicode_IsWhitespace]. *)
Definition isspace (c : char) : bool :=
  ((9 <=? c) && (c <=? 13)) || ((28 <=? c) && (c <=? 32))
  || (c =? 133) || (c =? 160) || (c =? 5760)
  || ((8192 <=? c) && (c <=? 8202))
  || (c =? 8232) || (c =? 8233) || (c =? 8239) || (c =? 8287) || (c =? 12288).

Fixpoint lstrip (s : str) : str :=
  match s with
  | [] => []
  | c :: s' => if isspace c then lstrip s' else s
  end.

Definition rstrip (s : str) : str := reverse (lstrip (reverse s)).

(** [s.strip()] *)
Definition strip (s : str) : str := rstrip (lstrip s).

(** [s.startswith(p)] *)
Fixpoint startswith (s p : str) : bool :=
  match p, s with
  | [], _ => true
  | _ :: _, [] => false
  | a :: p', b :: s' => (a =? b) && startswith s' p'
  end.

(** [c in s] for a one-character [c] *)
Fixpoint contains (c : char) (s : str) : bool :=
  match s with
  | [] => false
  | b :: s' => (b =? c) || contains c s'
  end.

(** The text before the first [sep], and the text after it when [sep]
    occurs. *)
Fixpoint partition (sep : char) (s : str) : str * option str :=
  match s with
  | [] => ([], None)
  | b :: s' =>
      if b =? sep then ([], Some s')
      else let '(h, t) := partition sep s' in (b :: h, t)
  end.

(** [s.split(sep, 1)] for a one-character [sep]: one or two pieces. *)
Definition split1 (sep : char) (s : str) : list str :=
  match partition sep s with
  | (h, None) => [h]
  | (h, Some t) => [h; t]
  end.

(** [l[0]] on the never-empty result of [split]. *)
Definition item0 (l : list str) : str := hd [] l.

(** [s.replace(old, new)] for a non-empty [old]: the occurrences of [old]
    are found left to right and do not overlap; [skip] counts the
    characters of a matched [old] still to be passed over. *)
Fixpoint replace_from (old new : str) (skip : nat) (s : str) : str :=
  match s with
  | [] => []
  | c :: s' =>
      match skip with
      | S k => replace_from old new k s'
      | O =>
          if startswith s old
          then new ++ replace_from old new (Nat.pred (length old)) s'
          else c :: replace_from old new O s'
      end
  end.

Definition replace (old new s : str) : str := replace_from old new O s.

(** [not s] *)
Definition is_empty (s : str) : bool :=
  match s with [] => true | _ => false end.

End PyStr.
Import PyStr.

(** ** Python dictionaries

    A [dict] keeps its items in insertion order, one item per key. *)

Module PyDict.

Abbreviation dict := (list (list Z * list Z)) (only parsing).

(** [d.items()] *)
Definition items (d : dict) : list (str * str) := d.

(** [d[k]] guarded by [k in d]: [None] when the key is absent. *)
Fixpoint get (d : dict) (k : str) : option str :=
  match d with
  | [] => None
  | (k', v) :: d' => if decide (k' = k) then Some v else get d' k
  end.

(** [k in d] *)
Definition mem (d : dict) (k : str) : bool :=
  match get d k with Some _ => true | None => false end.

Definition keys (d : dict) : list str := fst <$> d.

End PyDict.

(** ** The line transformation of [update_server_properties] *)

(** The loop variables [updated_keys] and [new_lines]. *)
Record loop_state := LoopState {
  updated_keys : gset str;
  new_lines : list str
}.

Definition append_line (st : loop_state) (line : str) : loop_state :=
  {| updated_keys := updated_keys st; new_lines := new_lines st ++ [line] |}.

(** The f-string [f"{key}={value}\n"]. *)
Definition key_value_line (key value : str) : str :=
  key ++ [ch_eq] ++ value ++ NL.

(** One iteration of [for line in lines]. *)
Definition loop_body (resource_pack_keys : PyDict.dict)
    (st : loop_state) (line : str) : loop_state :=
  let stripped := strip line in
  if is_empty stripped || startswith stripped [ch_hash] then
    append_line st line
  else if contains ch_eq stripped then
    let key := strip (item0 (split1 ch_eq stripped)) in
    match PyDict.get resource_pack_keys key with
    | Some value =>
        {| updated_keys := {[ key ]} ∪ updated_keys st;
           new_lines := new_lines st ++ [key_value_line key value] |}
    | None => append_line st line
    end
  else append_line st line.

(** One iteration of [for key, value in resource_pack_keys.items()]. *)
Definition append_missing (updated : gset str)
    (new_lines : list str) (kv : str * str) : list str :=
  if decide (kv.1 ∈ updated) then new_lines
  else new_lines ++ [key_value_line kv.1 kv.2].

(** Lines 668-696: the pass over the lines, then the missing keys. *)
Definition patch_lines (resource_pack_keys : PyDict.dict)
    (lines : list str) : list str :=
  let st := foldl (loop_body resource_pack_keys)
                  {| updated_keys := ∅; new_lines := [] |} lines in
  foldl (append_missing (updated_keys st)) (new_lines st)
        (PyDict.items resource_pack_keys).

(** Lines 662-666: the dictionary literal. *)
Definition resource_pack_keys (escaped_url hash_str pack_uuid : str)
    : PyDict.dict :=
  [ (lit "resource-pack", escaped_url);
    (lit "resource-pack-sha1", hash_str);
    (lit "resource-pack-id", pack_uuid) ].

(** Line 659: [url.replace(':', '\\:')]. *)
Definition escape_url (url : str) : str :=
  replace [ch_colon] [ch_backslash; ch_colon] url.


(** ** UTF-8

    Bytes are integers in 0..255. *)

Module Utf8.

(** The encoding of one code point; [None] where Python raises
    [UnicodeEncodeError]: surrogates (and integers that are no code
    point). *)
Definition encode_char (c : char) : option (list Z) :=
  if c <? 0 then None
  else if c <? 0x80 then Some [c]
  else if c <? 0x800 then
    Some [Z.lor 0xC0 (Z.shiftr c 6); Z.lor 0x80 (Z.land c 0x3F)]
  else if c <? 0x10000 then
    if (0xD800 <=? c) && (c <=? 0xDFFF) then None
    else Some [Z.lor 0xE0 (Z.shiftr c 12);
               Z.lor 0x80 (Z.land (Z.shiftr c 6) 0x3F);
               Z.lor 0x80 (Z.land c 0x3F)]
  else if c <? 0x110000 then
    Some [Z.lor 0xF0 (Z.shiftr c 18);
          Z.lor 0x80 (Z.land (Z.shiftr c 12) 0x3F);
          Z.lor 0x80 (Z.land (Z.shiftr c 6) 0x3F);
          Z.lor 0x80 (Z.land c 0x3F)]
  else None.

(** [s.encode('utf-8')], [bytes(s, 'utf-8')] *)
Fixpoint encode (s : str) : option (list Z) :=
  match s with
  | [] => Some []
  | c :: s' =>
      match encode_char c, encode s' with
      | Some bs, Some bs' => Some (bs ++ bs')
      | _, _ => None
      end
  end.

Definition is_cont (b : Z) : bool := (0x80 <=? b) && (b <=? 0xBF).

(** A decoded sequence is accepted when it is the encoding of its code
    point: no overlong form, no surrogate, nothing above U+10FFFF. *)
Definition accept (c : char) (bs : list Z) : option char :=
  if decide (encode_char c = Some bs) then Some c else None.

(** [bytes.decode('utf-8')], strict; [None] is [UnicodeDecodeError]. *)
Fixpoint decode (bs : list Z) : option str :=
  match bs with
  | [] => Some []
  | b0 :: r0 =>
      if (0 <=? b0) && (b0 <? 0x80) then cons b0 <$> decode r0
      else if (0xC0 <=? b0) && (b0 <? 0xE0) then
        match r0 with
        | b1 :: r1 =>
            if is_cont b1 then
              c ← accept (Z.lor (Z.shiftl (Z.land b0 0x1F) 6)
                                (Z.land b1 0x3F)) [b0; b1];
              cons c <$> decode r1
            else None
        | _ => None
        end
      else if (0xE0 <=? b0) && (b0 <? 0xF0) then
        match r0 with
        | b1 :: b2 :: r2 =>
            if is_cont b1 && is_cont b2 then
              c ← accept (Z.lor (Z.shiftl (Z.land b0 0x0F) 12)
                           (Z.lor (Z.shiftl (Z.land b1 0x3F) 6)
                                  (Z.land b2 0x3F))) [b0; b1; b2];
              cons c <$> decode r2
            else None
        | _ => None
        end
      else if (0xF0 <=? b0) && (b0 <? 0xF8) then
        match r0 with
        | b1 :: b2 :: b3 :: r3 =>
            if is_cont b1 && is_cont b2 && is_cont b3 then
              c ← accept (Z.lor (Z.shiftl (Z.land b0 0x07) 18)
                           (Z.lor (Z.shiftl (Z.land b1 0x3F) 12)
                             (Z.lor (Z.shiftl (Z.land b2 0x3F) 6)
                                    (Z.land b3 0x3F)))) [b0; b1; b2; b3];
              cons c <$> decode r3
            else None
        | _ => None
        end
      else None
  end.

End Utf8.

(** ** SHA-1 ([hashlib.sha1]), FIPS 180-4

    Words are integers in 0..2^32-1; additions wrap around. *)

Module Sha1.

Definition w32 (x : Z) : Z := x mod 2 ^ 32.

Definition add32 (x y : Z) : Z := w32 (x + y).

Definition rotl (n x : Z) : Z :=
  w32 (Z.lor (Z.shiftl x n) (Z.shiftr x (32 - n))).

Definition not32 (x : Z) : Z := w32 (Z.lnot x).

(** A number as [n] big-endian bytes. *)
Fixpoint to_bytes (n : nat) (x : Z) : list Z :=
  match n with
  | O => []
  | S k => (Z.shiftr x (8 * Z.of_nat k)) mod 256 :: to_bytes k x
  end.

(** Big-endian bytes as a number. *)
Definition from_bytes (bs : list Z) : Z :=
  foldl (fun acc b => Z.lor (Z.shiftl acc 8) b) 0 bs.

(** The message, the bit 1, zero bits up to 56 mod 64 bytes, and the bit
    length of the message on 8 bytes. *)
Definition pad (msg : list Z) : list Z :=
  let len := Z.of_nat (length msg) in
  msg ++ [0x80] ++ replicate (Z.to_nat ((55 - len) mod 64)) 0
      ++ to_bytes 8 (8 * len).

Fixpoint words (n : nat) (bs : list Z) : list Z :=
  match n with
  | O => []
  | S k => from_bytes (take 4 bs) :: words k (drop 4 bs)
  end.

(** The message schedule, latest word first: [rev_w] holds W(t-1) .. W(0). *)
Fixpoint schedule (n : nat) (rev_w : list Z) : list Z :=
  match n with
  | O => rev_w
  | S k =>
      let w i := rev_w !!! i in
      schedule k
        (rotl 1 (Z.lxor (Z.lxor (w 2%nat) (w 7%nat))
                        (Z.lxor (w 13%nat) (w 15%nat))) :: rev_w)
  end.

Definition f (t : nat) (b c d : Z) : Z :=
  if (t <? 20)%nat then Z.lor (Z.land b c) (Z.land (not32 b) d)
  else if (t <? 40)%nat then Z.lxor (Z.lxor b c) d
  else if (t <? 60)%nat then
    Z.lor (Z.lor (Z.land b c) (Z.land b d)) (Z.land c d)
  else Z.lxor (Z.lxor b c) d.

Definition K (t : nat) : Z :=
  if (t <? 20)%nat then 0x5A827999
  else if (t <? 40)%nat then 0x6ED9EBA1
  else if (t <? 60)%nat then 0x8F1BBCDC
  else 0xCA62C1D6.

Definition regs : Type := Z * Z * Z * Z * Z.

Definition round (st : regs) (tw : nat * Z) : regs :=
  let '(a, b, c, d, e) := st in
  let '(t, w) := tw in
  (add32 (add32 (add32 (add32 (rotl 5 a) (f t b c d)) e) (K t)) w,
   a, rotl 30 b, c, d).

Definition add_regs (x y : regs) : regs :=
  let '(a, b, c, d, e) := x in
  let '(a', b', c', d', e') := y in
  (add32 a a', add32 b b', add32 c c', add32 d d', add32 e e').

Definition compress (h : regs) (block : list Z) : regs :=
  let w := reverse (schedule 64 (reverse (words 16 block))) in
  add_regs h (foldl round h (zip (seq 0 80) w)).

Fixpoint blocks (n : nat) (bs : list Z) : list (list Z) :=
  match n with
  | O => []
  | S k => take 64 bs :: blocks k (drop 64 bs)
  end.

Definition H0 : regs :=
  (0x67452301, 0xEFCDAB89, 0x98BADCFE, 0x10325476, 0xC3D2E1F0).

(** [hashlib.sha1(msg).digest()]: 20 bytes. *)
Definition digest (msg : list Z) : list Z :=
  let p := pad msg in
  let '(a, b, c, d, e) :=
    foldl compress H0 (blocks (length p / 64) p) in
  to_bytes 4 a ++ to_bytes 4 b ++ to_bytes 4 c ++ to_bytes 4 d
    ++ to_bytes 4 e.

End Sha1.

(** ** The [uuid] module *)

Module Uuid.

(** A [UUID] object: its 128-bit [int]. *)
Record UUID := { int : Z }.

(** [UUID(bytes=b, version=v)]: the variant bits set to RFC 4122, then
    the version number. *)
Definition of_bytes (bytes : list Z) (version : Z) : UUID :=
  let i := Sha1.from_bytes bytes in
  let i := Z.land i (Z.lnot (Z.shiftl 0xc000 48)) in
  let i := Z.lor i (Z.shiftl 0x8000 48) in
  let i := Z.land i (Z.lnot (Z.shiftl 0xf000 64)) in
  let i := Z.lor i (Z.shiftl version 76) in
  {| int := i |}.

(** [u.bytes] *)
Definition bytes (u : UUID) : list Z := Sha1.to_bytes 16 (int u).

(** [NAMESPACE_DNS = UUID('6ba7b810-9dad-11d1-80b4-00c04fd430c8')] *)
Definition NAMESPACE_DNS : UUID :=
  {| int := 0x6ba7b8109dad11d180b400c04fd430c8 |}.

(** [uuid5(namespace, name)]; [None] when [name] cannot be encoded. *)
Definition uuid5 (namespace : UUID) (name : str) : option UUID :=
  name_bytes ← Utf8.encode name;
  let hash := Sha1.digest (bytes namespace ++ name_bytes) in
  Some (of_bytes (take 16 hash) 5).

Definition hex_digit (d : Z) : char :=
  if d <? 10 then 48 + d else 87 + d.

(** The digits of [n] in base 16, most significant first, before [acc]. *)
Fixpoint hex_digits (fuel : nat) (n : Z) (acc : str) : str :=
  match fuel with
  | O => acc
  | S k =>
      let acc' := hex_digit (n mod 16) :: acc in
      if n <? 16 then acc' else hex_digits k (n / 16) acc'
  end.

(** ['%032x' % n] for a natural [n] *)
Definition format_032x (n : Z) : str :=
  let digits := hex_digits (S (Z.to_nat (Z.log2 n))) n [] in
  replicate (32 - length digits) 48 ++ digits.

(** [s[a:b]] for [0 <= a <= b] *)
Definition slice (a b : nat) (s : str) : str := take (b - a) (drop a s).

(** [str(u)] *)
Definition to_str (u : UUID) : str :=
  let hex := format_032x (int u) in
  slice 0 8 hex ++ [ch_minus] ++ slice 8 12 hex ++ [ch_minus]
    ++ slice 12 16 hex ++ [ch_minus] ++ slice 16 20 hex ++ [ch_minus]
    ++ drop 20 hex.

(** [u.version], for a UUID of the RFC 4122 variant *)
Definition version (u : UUID) : Z := Z.land (Z.shiftr (int u) 76) 0xf.

(** [u.variant == RFC_4122] *)
Definition is_rfc_4122 (u : UUID) : bool :=
  negb (Z.land (int u) (Z.shiftl 0x8000 48) =? 0)
  && (Z.land (int u) (Z.shiftl 0x4000 48) =? 0).

End Uuid.

(** Lines 633-640. [None] where the call raises. *)
Definition generate_pack_uuid (hash_str : str) : option str :=
  Uuid.to_str <$>
    Uuid.uuid5 Uuid.NAMESPACE_DNS (lit "bitterharvest-pack-" ++ hash_str).

(** ** Text files

    The file system as far as [update_server_properties] sees it: what is
    at a path, and the platform's line separator. Permissions, disk
    space and other processes are outside the model. *)

Module Io.

Inductive platform := Posix | Windows.

(** [os.linesep] *)
Definition linesep (p : platform) : str :=
  match p with Posix => NL | Windows => CR ++ NL end.

Inductive node :=
  | File (content : list Z)
  | Dir.

Record world := World {
  os : platform;
  nodes : gmap str node
}.

(** [path.exists()] *)
Definition path_exists (w : world) (path : str) : bool :=
  match nodes w !! path with Some _ => true | None => false end.

(** Reading in text mode with [newline=None]: ['\r\n'] and ['\r'] both
    arrive as ['\n']. *)
Fixpoint universal_newlines (s : str) : str :=
  match s with
  | [] => []
  | c :: s' =>
      if c =? 13 then
        10 :: match s' with
              | d :: s'' =>
                  if d =? 10 then universal_newlines s''
                  else universal_newlines s'
              | [] => []
              end
      else c :: universal_newlines s'
  end.

(** [f.readlines()] on the text left to read; [cur] is the line begun. *)
Fixpoint split_lines (cur : str) (s : str) : list str :=
  match s with
  | [] => if is_empty cur then [] else [cur]
  | c :: s' =>
      if c =? 10 then (cur ++ [c]) :: split_lines [] s'
      else split_lines (cur ++ [c]) s'
  end.

(** [with open(path, 'r', encoding='utf-8') as f: f.readlines()];
    [None] where an exception is raised. *)
Definition readlines (w : world) (path : str) : option (list str) :=
  match nodes w !! path with
  | Some (File content) =>
      text ← Utf8.decode content;
      Some (split_lines [] (universal_newlines text))
  | _ => None
  end.

(** [f.write(line)] in text mode: ['\n'] becomes [os.linesep], the text is
    encoded, and the bytes join those already written; [None] where the
    encoder raises, with nothing of [line] written. *)
Definition write (p : platform) (written : list Z) (line : str)
    : option (list Z) :=
  bs ← Utf8.encode (replace NL (linesep p) line);
  Some (written ++ bs).

(** [f.writelines(lines)]: what the file holds when it is closed, and
    whether every line went through. *)
Fixpoint writelines (p : platform) (written : list Z) (lines : list str)
    : list Z * bool :=
  match lines with
  | [] => (written, true)
  | line :: rest =>
      match write p written line with
      | Some written' => writelines p written' rest
      | None => (written, false)
      end
  end.

(** [with open(path, 'w', encoding='utf-8') as f: f.writelines(lines)]:
    the file is emptied when it is opened; the flag tells whether the
    block ended without an exception. *)
Definition open_w_writelines (w : world) (path : str) (lines : list str)
    : world * bool :=
  match nodes w !! path with
  | Some Dir => (w, false)
  | _ =>
      let '(content, ok) := writelines (os w) [] lines in
      ({| os := os w; nodes := <[path := File content]> (nodes w) |}, ok)
  end.

End Io.

(** Lines 643-708. The result is the returned flag and the file system
    left behind; what is printed is not modelled. Every exception raised
    inside [try] ends in [return False]. *)
Definition update_server_properties (w : Io.world)
    (properties_path : str) (url hash_str : str) : bool * Io.world :=
  if negb (Io.path_exists w properties_path) then (false, w)
  else
    match Io.readlines w properties_path with
    | None => (false, w)
    | Some lines =>
        match generate_pack_uuid hash_str with
        | None => (false, w)
        | Some pack_uuid =>
            let escaped_url := escape_url url in
            let new_lines :=
              patch_lines
                (resource_pack_keys escaped_url hash_str pack_uuid) lines in
            let '(w', ok) :=
              Io.open_w_writelines w properties_path new_lines in
            (ok, w')
        end
    end.

(** ** Vocabulary of the statements *)

(** The key the loop reads off a line: [None] for a blank line, a comment
    and a line without ['=']. *)
Definition line_key (line : str) : option str :=
  let stripped := strip line in
  if is_empty stripped || startswith stripped [ch_hash] then None
  else if contains ch_eq stripped
       then Some (strip (item0 (split1 ch_eq stripped)))
  else None.

(** The managed item a line stands for, if any. *)
Definition managed_item (M : PyDict.dict) (line : str)
    : option (str * str) :=
  key ← line_key line; value ← PyDict.get M key; Some (key, value).

(** What the loop appends for a line. *)
Definition rewrite_line (M : PyDict.dict) (line : str) : str :=
  match managed_item M line with
  | Some (key, value) => key_value_line key value
  | None => line
  end.

(** A line the patcher has no business with, in the words of the
    specification: blank, a comment, without ['='], or with a key (the
    text before the first ['='], trimmed) that is not managed. *)
Definition unmanaged (M : PyDict.dict) (line : str) : Prop :=
  strip line = []
  ∨ startswith (strip line) [ch_hash] = true
  ∨ contains ch_eq line = false
  ∨ PyDict.mem M (strip (partition ch_eq line).1) = false.

(** How many lines of a document carry the key [k]. *)
Definition key_count (k : str) (lines : list str) : nat :=
  length (filter (λ line, line_key line = Some k) lines).

(** Some line of the document carries the key [k]. *)
Definition key_present (k : str) (lines : list str) : Prop :=
  Exists (λ line, line_key line = Some k) lines.

(** The items of the dictionary whose key no line of the document
    carries, in the order of the dictionary. *)
Definition missing_items (M : PyDict.dict) (lines : list str)
    : list (str * str) :=
  filter (λ kv, ¬ key_present kv.1 lines) (PyDict.items M).

(** A string that [line_key] can return: trimmed, without ['='], not
    starting a comment. *)
Definition key_shaped (k : str) : Prop :=
  strip k = k ∧ contains ch_eq k = false ∧ startswith k [ch_hash] = false.

(** A dictionary of distinct, well-shaped keys. *)
Definition keys_ok (M : PyDict.dict) : Prop :=
  NoDup (PyDict.keys M) ∧ Forall key_shaped (PyDict.keys M).

(** The escaping in the words of the specification: every [':'] becomes
    ['\:'], every other character stays. *)
Definition colons_escaped (url : str) : str :=
  c ← url; if c =? ch_colon then [ch_backslash; ch_colon] else [c].

(** First and last character are no whitespace. *)
Definition trimmed (s : str) : Prop :=
  (∀ c r, s = c :: r → isspace c = false)
  ∧ (∀ c r, s = r ++ [c] → isspace c = false).

(** A natural number below [2^k], told by its bits. *)
Definition fits (k n : Z) : Prop :=
  0 <= n ∧ ∀ i, k <= i → Z.testbit n i = false.

(** A byte. *)
Definition is_byte (b : Z) : Prop := 0 <= b < 256.



Definition is_hex_digit (c : char) : Prop :=
  48 <= c <= 57 ∨ 97 <= c <= 102.

(** The number of hyphens of a string. *)
Definition hyphens (s : str) : nat :=
  length (filter (λ c, c = ch_minus) s).



(** A string that UTF-8 can encode: no surrogate in it. *)
Definition encodable (s : str) : Prop :=
  Forall (λ c, is_Some (Utf8.encode_char c)) s.

(** ** Sample inputs *)

(** The managed dictionary and the document of the specification's
    example, the lines with their terminators. *)
Definition example_managed : PyDict.dict :=
  resource_pack_keys (lit "new\:url") (lit "abcd1234")
    (lit "11111111-1111-1111-1111-111111111111").

Definition example_document : list str :=
  [lit "# comment" ++ NL; NL; lit "server-port=25565" ++ NL;
   lit "resource-pack=old" ++ NL].

(** A document that sets the pack location twice, the second time with
    blanks around the key and no line terminator. *)
Definition twice_document : list str :=
  [lit "resource-pack=a" ++ NL; lit "  resource-pack = b"].

(** A server with one properties file, and a URL with a lone surrogate,
    as [sys.argv] holds after an undecodable byte. *)
Definition sample_path : str := lit "server.properties".

Definition sample_content : list Z :=
  lit "resource-pack=old" ++ NL ++ lit "motd=hi" ++ NL.

Definition sample_world : Io.world :=
  {| Io.os := Io.Posix;
     Io.nodes := {[ sample_path := Io.File sample_content ]} |}.



(** * Properties *)

(** ** Values checked against the Python library *)

Example patch_example :
  patch_lines example_managed example_document
  = [lit "# comment" ++ NL; NL; lit "server-port=25565" ++ NL;
     lit "resource-pack=new\:url" ++ NL;
     lit "resource-pack-sha1=abcd1234" ++ NL;
     lit "resource-pack-id=11111111-1111-1111-1111-111111111111" ++ NL].
Proof. vm_compute. reflexivity. Qed.

Example sha1_abc :
  Sha1.digest (lit "abc")
  = [0xa9; 0x99; 0x3e; 0x36; 0x47; 0x06; 0x81; 0x6a; 0xba; 0x3e;
     0x25; 0x71; 0x78; 0x50; 0xc2; 0x6c; 0x9c; 0xd0; 0xd8; 0x9d].
Proof. vm_compute. reflexivity. Qed.

Example uuid5_python_org :
  Uuid.to_str <$> Uuid.uuid5 Uuid.NAMESPACE_DNS (lit "python.org")
  = Some (lit "886313e1-3b8a-5372-9b90-0c9aee199e5d").
Proof. vm_compute. reflexivity. Qed.

Example sha1_two_blocks :
  Sha1.digest
    (lit "abcdbcdecdefdefgefghfghighijhijkijkljklmklmnlmnomnopnopq")
  = [0x84; 0x98; 0x3e; 0x44; 0x1c; 0x3b; 0xd2; 0x6e; 0xba; 0xae;
     0x4a; 0xa1; 0xf9; 0x51; 0x29; 0xe5; 0xe5; 0x46; 0x70; 0xf1].
Proof. vm_compute. reflexivity. Qed.

(** U+00E9, U+20AC and U+1F600 take two, three and four bytes. *)
Example utf8_encode_sample :
  Utf8.encode [0xe9; 0x20ac; 0x1f600]
  = Some [0xc3; 0xa9; 0xe2; 0x82; 0xac; 0xf0; 0x9f; 0x98; 0x80].
Proof. vm_compute. reflexivity. Qed.

Example utf8_decode_sample :
  Utf8.decode [0xc3; 0xa9; 0xe2; 0x82; 0xac; 0xf0; 0x9f; 0x98; 0x80]
  = Some [0xe9; 0x20ac; 0x1f600].
Proof. vm_compute. reflexivity. Qed.

(** An overlong form, an encoded surrogate and a cut sequence are
    refused; a surrogate is not encoded. *)
Example utf8_strict :
  Utf8.decode [0xc0; 0x80] = None
  ∧ Utf8.decode [0xed; 0xa0; 0x80] = None
  ∧ Utf8.decode [0xe2; 0x82] = None
  ∧ Utf8.encode [0xdc80] = None.
Proof. by vm_compute. Qed.

Example generate_pack_uuid_non_ascii :
  generate_pack_uuid [0xe9; 0x20ac; 0x1f600]
  = Some (lit "c2796325-a367-507f-bceb-da15a6d62995").
Proof. vm_compute. reflexivity. Qed.

Example strip_sample : strip (lit " a = b " ++ NL) = lit "a = b".
Proof. reflexivity. Qed.

Example escape_sample : escape_url (lit "a:b::") = lit "a\:b\:\:".
Proof. reflexivity. Qed.

Example readlines_sample :
  Io.split_lines []
    (Io.universal_newlines (lit "a" ++ CR ++ NL ++ lit "b" ++ CR ++ lit "c"))
  = [lit "a" ++ NL; lit "b" ++ NL; lit "c"].
Proof. reflexivity. Qed.

(** The example of the specification with its lines as written there,
    without terminators: the untouched lines stay so, the managed ones
    get theirs. *)
Example patch_example_bare_lines :
  patch_lines example_managed
    [lit "# comment"; []; lit "server-port=25565"; lit "resource-pack=old"]
  = [lit "# comment"; []; lit "server-port=25565";
     lit "resource-pack=new\:url" ++ NL;
     lit "resource-pack-sha1=abcd1234" ++ NL;
     lit "resource-pack-id=11111111-1111-1111-1111-111111111111" ++ NL].
Proof. vm_compute. reflexivity. Qed.

(** Idempotence rests on the shape of the three keys: a key with ['=']
    in it is never found again and is appended on every run. *)
Example patch_lines_odd_key :
  let M := [(lit "a=b", lit "v")] in
  patch_lines M [] = [lit "a=b=v" ++ NL]
  ∧ patch_lines M (patch_lines M []) = [lit "a=b=v" ++ NL; lit "a=b=v" ++ NL].
Proof. by vm_compute. Qed.

(** The file behind the lines. A last line without terminator and the
    line appended after it are one line when the file is read again, so
    a second run does not find the key and appends it once more. *)
Example appended_line_joins_unterminated_line :
  let written := (Io.writelines Io.Posix []
                    (patch_lines example_managed
                       [lit "resource-pack-sha1=old" ++ NL;
                        lit "resource-pack-id=old" ++ NL;
                        lit "motd=hi"])).1 in
  let read := Io.split_lines [] <$>
                (Io.universal_newlines <$> Utf8.decode written) in
  read = Some [lit "resource-pack-sha1=abcd1234" ++ NL;
               lit "resource-pack-id=11111111-1111-1111-1111-111111111111"
                 ++ NL;
               lit "motd=hiresource-pack=new\:url" ++ NL]
  ∧ patch_lines example_managed <$> read
    = Some [lit "resource-pack-sha1=abcd1234" ++ NL;
            lit "resource-pack-id=11111111-1111-1111-1111-111111111111"
              ++ NL;
            lit "motd=hiresource-pack=new\:url" ++ NL;
            lit "resource-pack=new\:url" ++ NL].
Proof. by vm_compute. Qed.

(** ** Trimming *)

Section Trimming.

Lemma lstrip_app_nonspace x c y :
  isspace c = false → lstrip (x ++ c :: y) = lstrip x ++ c :: y.
Proof.
  intros Hc. induction x as [|a x IH]; simpl.
  - by rewrite Hc.
  - destruct (isspace a); done.
Qed.

Lemma rstrip_app_nonspace x c y :
  isspace c = false → rstrip (x ++ c :: y) = x ++ c :: rstrip y.
Proof.
  intros Hc. unfold rstrip.
  rewrite reverse_app, reverse_cons, <- app_assoc. simpl.
  rewrite lstrip_app_nonspace by done.
  rewrite reverse_app, reverse_cons, reverse_involutive.
  by rewrite <- app_assoc.
Qed.

Lemma rstrip_nil : rstrip [] = [].
Proof. done. Qed.

Lemma lstrip_head s c r : lstrip s = c :: r → isspace c = false.
Proof.
  induction s as [|a s IH]; simpl; [done|].
  destruct (isspace a) eqn:Ha; [done|]. by intros [= <- _].
Qed.

Lemma lstrip_nonspace c r : isspace c = false → lstrip (c :: r) = c :: r.
Proof. intros Hc. simpl. by rewrite Hc. Qed.

Lemma lstrip_suffix s :
  ∃ ws, s = ws ++ lstrip s ∧ Forall (λ c, isspace c = true) ws.
Proof.
  induction s as [|a s (ws & Hs & Hws)]; simpl.
  - by exists [].
  - destruct (isspace a) eqn:Ha.
    + exists (a :: ws). split; [simpl; congruence | by constructor].
    + by exists [].
Qed.

Lemma rstrip_prefix s :
  ∃ ws, s = rstrip s ++ ws ∧ Forall (λ c, isspace c = true) ws.
Proof.
  destruct (lstrip_suffix (reverse s)) as (ws & Hs & Hws).
  exists (reverse ws). split.
  - unfold rstrip. rewrite <- reverse_app, <- Hs.
    by rewrite reverse_involutive.
  - by apply Forall_reverse.
Qed.

Lemma lstrip_spaces_app ws s :
  Forall (λ c, isspace c = true) ws → lstrip (ws ++ s) = lstrip s.
Proof. induction 1 as [|c ws Hc _ IH]; simpl; [done | by rewrite Hc]. Qed.

Lemma rstrip_cons_nonspace c r :
  isspace c = false → rstrip (c :: r) = c :: rstrip r.
Proof. apply (rstrip_app_nonspace []). Qed.

Lemma strip_head s c r : strip s = c :: r → isspace c = false.
Proof.
  unfold strip. destruct (lstrip s) as [|a t] eqn:Hl; [done|].
  apply lstrip_head in Hl. rewrite rstrip_cons_nonspace by done.
  by intros [= <- _].
Qed.

Lemma rstrip_last s c r : rstrip s = r ++ [c] → isspace c = false.
Proof.
  unfold rstrip. intros H. apply (f_equal reverse) in H.
  rewrite reverse_involutive, reverse_app in H. simpl in H.
  by apply lstrip_head in H.
Qed.

Lemma trimmed_strip s : trimmed (strip s).
Proof.
  split; intros c r H.
  - by apply strip_head in H.
  - by apply rstrip_last in H.
Qed.

Lemma strip_trimmed s : trimmed s → strip s = s.
Proof.
  intros [Hh Hl]. unfold strip. destruct s as [|c r]; [done|].
  rewrite lstrip_nonspace by eauto.
  destruct (exists_last (l := c :: r)) as (r' & c' & Hr); [done|].
  rewrite Hr. apply Hl in Hr. rewrite rstrip_app_nonspace by done.
  by rewrite rstrip_nil.
Qed.

Lemma strip_strip s : strip (strip s) = strip s.
Proof. apply strip_trimmed, trimmed_strip. Qed.

Lemma strip_decompose s :
  ∃ ws1 ws2, s = ws1 ++ strip s ++ ws2
    ∧ Forall (λ c, isspace c = true) ws1
    ∧ Forall (λ c, isspace c = true) ws2.
Proof.
  destruct (lstrip_suffix s) as (ws1 & H1 & Hw1).
  destruct (rstrip_prefix (lstrip s)) as (ws2 & H2 & Hw2).
  exists ws1, ws2. unfold strip. by rewrite <- H2.
Qed.

End Trimming.

(** ** Searching and splitting *)

Section Splitting.

Lemma contains_app c x y :
  contains c (x ++ y) = contains c x || contains c y.
Proof.
  induction x as [|a x IH]; simpl; [done|].
  by rewrite IH, orb_assoc.
Qed.

Lemma contains_spaces c ws :
  isspace c = false → Forall (λ c, isspace c = true) ws →
  contains c ws = false.
Proof.
  intros Hc. induction 1 as [|a ws Ha _ IH]; simpl; [done|].
  rewrite IH, orb_false_r. apply Z.eqb_neq. congruence.
Qed.

Lemma contains_strip c s :
  isspace c = false → contains c (strip s) = contains c s.
Proof.
  intros Hc. destruct (strip_decompose s) as (ws1 & ws2 & Hs & H1 & H2).
  rewrite Hs at 2. rewrite !contains_app.
  rewrite (contains_spaces c ws1), (contains_spaces c ws2) by done.
  by rewrite orb_false_r.
Qed.

Lemma partition_app_sep sep h t :
  contains sep h = false → partition sep (h ++ sep :: t) = (h, Some t).
Proof.
  induction h as [|a h IH]; simpl.
  - by rewrite Z.eqb_refl.
  - intros [Ha Hh]%orb_false_elim. by rewrite Ha, IH.
Qed.

Lemma partition_found sep s :
  contains sep s = true →
  ∃ h t, s = h ++ sep :: t ∧ contains sep h = false.
Proof.
  induction s as [|a s IH]; simpl; [done|].
  destruct (a =? sep) eqn:Ha.
  - intros _. apply Z.eqb_eq in Ha as ->. by exists [], s.
  - intros (h & t & -> & Hh)%IH. exists (a :: h), t. simpl.
    by rewrite Ha.
Qed.

Lemma item0_split1 sep s : item0 (split1 sep s) = (partition sep s).1.
Proof. unfold split1. by destruct (partition sep s) as [h [t|]]. Qed.

Lemma startswith_char s c :
  startswith s [c] = match s with a :: _ => c =? a | [] => false end.
Proof. destruct s as [|a [|b s]]; simpl; by rewrite ?andb_true_r. Qed.

(** The key read off the stripped line is the text before the first
    ['='] of the line itself, trimmed. *)
Lemma strip_partition_strip s :
  contains ch_eq (strip s) = true →
  strip (partition ch_eq (strip s)).1 = strip (partition ch_eq s).1.
Proof.
  intros (h & t & Hs & Hh)%partition_found.
  destruct (strip_decompose s) as (ws1 & ws2 & Hd & H1 & H2).
  rewrite Hd at 2. rewrite Hs, partition_app_sep by done.
  replace (ws1 ++ (h ++ ch_eq :: t) ++ ws2)
    with ((ws1 ++ h) ++ ch_eq :: (t ++ ws2))
    by (by rewrite <- !app_assoc).
  rewrite partition_app_sep.
  - simpl. unfold strip. by rewrite lstrip_spaces_app.
  - rewrite contains_app, Hh. by rewrite contains_spaces.
Qed.

End Splitting.

(** ** Keys of lines *)

Section LineKey.

Lemma line_key_Some l k :
  line_key l = Some k ↔
  strip l ≠ [] ∧ startswith (strip l) [ch_hash] = false
  ∧ contains ch_eq (strip l) = true
  ∧ k = strip (partition ch_eq (strip l)).1.
Proof.
  unfold line_key. rewrite item0_split1.
  destruct (strip l) as [|a r] eqn:Hs; simpl is_empty.
  - split; [done | by intros [? _]].
  - rewrite orb_false_l.
    destruct (startswith (a :: r) [ch_hash]);
      [split; [done | by intros (_ & ? & _)]|].
    destruct (contains ch_eq (a :: r));
      [|split; [done | by intros (_ & _ & ? & _)]].
    split; [by intros [= <-] | by intros (_ & _ & _ & ->)].
Qed.

Lemma line_key_shaped l k : line_key l = Some k → key_shaped k.
Proof.
  intros (Hne & Hhash & Heq & ->)%line_key_Some.
  apply partition_found in Heq as (h & t & Hs & Hh).
  rewrite Hs, partition_app_sep by done. simpl.
  split; [apply strip_strip|]. split.
  - by rewrite contains_strip.
  - destruct h as [|a h]; [done|].
    assert (isspace a = false) as Ha by (by eapply strip_head).
    rewrite Hs in Hhash. rewrite startswith_char in Hhash. simpl in Hhash.
    unfold strip. rewrite lstrip_nonspace, rstrip_cons_nonspace by done.
    by rewrite startswith_char.
Qed.

Lemma key_shaped_head k c r :
  key_shaped k → k = c :: r → isspace c = false ∧ c ≠ ch_hash.
Proof.
  intros (Hs & _ & Hh) ->. split.
  - by eapply strip_head.
  - rewrite startswith_char in Hh. apply Z.eqb_neq in Hh. congruence.
Qed.

Lemma strip_key_value_line k v :
  key_shaped k →
  strip (key_value_line k v) = k ++ ch_eq :: rstrip (v ++ NL).
Proof.
  intros Hk. unfold key_value_line, strip.
  replace (lstrip (k ++ [ch_eq] ++ v ++ NL)) with (k ++ ch_eq :: v ++ NL).
  - by rewrite rstrip_app_nonspace.
  - destruct k as [|c r]; [done|].
    destruct (key_shaped_head _ c r Hk eq_refl) as [Hc _].
    simpl. by rewrite Hc.
Qed.

Lemma line_key_key_value_line k v :
  key_shaped k → line_key (key_value_line k v) = Some k.
Proof.
  intros Hk. apply line_key_Some. rewrite strip_key_value_line by done.
  destruct Hk as (Hs & He & Hh). split_and!.
  - by destruct k.
  - destruct k as [|c r]; [done|].
    rewrite startswith_char in Hh. by rewrite startswith_char.
  - rewrite contains_app. simpl. by rewrite orb_true_r.
  - by rewrite partition_app_sep.
Qed.

Lemma managed_item_Some M l k v :
  managed_item M l = Some (k, v) ↔
  line_key l = Some k ∧ PyDict.get M k = Some v.
Proof.
  unfold managed_item. destruct (line_key l) as [k'|]; simpl.
  - destruct (PyDict.get M k') as [v'|] eqn:Hg; simpl.
    + split; [by intros [= <- <-] | intros [[= <-] Hv]; congruence].
    + split; [done | intros [[= <-] Hv]; congruence].
  - split; [done | by intros [? _]].
Qed.

Lemma line_key_rewrite_line M l : line_key (rewrite_line M l) = line_key l.
Proof.
  unfold rewrite_line. destruct (managed_item M l) as [[k v]|] eqn:Hm; [|done].
  apply managed_item_Some in Hm as [Hk _]. rewrite Hk.
  apply line_key_key_value_line. by eapply line_key_shaped.
Qed.

Lemma managed_item_rewrite_line M l :
  managed_item M (rewrite_line M l) = managed_item M l.
Proof. unfold managed_item. by rewrite line_key_rewrite_line. Qed.

Lemma rewrite_line_idemp M l :
  rewrite_line M (rewrite_line M l) = rewrite_line M l.
Proof.
  unfold rewrite_line at 1. rewrite managed_item_rewrite_line.
  unfold rewrite_line. by destruct (managed_item M l) as [[k v]|].
Qed.

(** A line is unmanaged exactly when it stands for no managed item. *)
Lemma unmanaged_managed_item M l :
  unmanaged M l ↔ managed_item M l = None.
Proof.
  unfold unmanaged, PyDict.mem. split.
  - intros H. destruct (managed_item M l) as [[k v]|] eqn:Hm; [|done].
    apply managed_item_Some in Hm as [Hk Hg].
    apply line_key_Some in Hk as (Hne & Hhash & Heq & Hk).
    rewrite strip_partition_strip in Hk by done. subst k.
    rewrite contains_strip in Heq by done.
    destruct H as [H|[H|[H|H]]]; [congruence..|].
    by rewrite Hg in H.
  - intros Hm.
    destruct (decide (strip l = [])) as [|Hne]; [by left|].
    destruct (startswith (strip l) [ch_hash]) eqn:Hhash; [by right; left|].
    destruct (contains ch_eq l) eqn:Heq; [|by right; right; left].
    right; right; right.
    destruct (PyDict.get M (strip (partition ch_eq l).1)) as [v|] eqn:Hg;
      [|done].
    rewrite <- contains_strip in Heq by done.
    assert (managed_item M l
            = Some (strip (partition ch_eq (strip l)).1, v)) as Hm'.
    { apply managed_item_Some. split.
      - by apply line_key_Some.
      - by rewrite strip_partition_strip. }
    congruence.
Qed.

Lemma rewrite_line_unmanaged M l : unmanaged M l → rewrite_line M l = l.
Proof. intros Hm%unmanaged_managed_item. unfold rewrite_line. by rewrite Hm. Qed.

End LineKey.

(** ** The two loops *)

Section Loops.

Context (M : PyDict.dict).

Lemma loop_body_new_lines st l :
  new_lines (loop_body M st l) = new_lines st ++ [rewrite_line M l].
Proof.
  unfold loop_body, rewrite_line, managed_item, line_key.
  destruct (is_empty (strip l) || startswith (strip l) [ch_hash]); [done|].
  destruct (contains ch_eq (strip l)); [|done]. simpl.
  by destruct (PyDict.get M _).
Qed.

Lemma loop_body_updated_keys st l k :
  k ∈ updated_keys (loop_body M st l) ↔
  k ∈ updated_keys st ∨ ∃ v, managed_item M l = Some (k, v).
Proof.
  assert (∀ P : Prop, P ↔ P ∨ ∃ v : list Z, None = Some (k, v)) as Hnone.
  { intros P. split; [by left | by intros [?|[? ?]]]. }
  unfold loop_body, managed_item, line_key.
  destruct (is_empty (strip l) || startswith (strip l) [ch_hash]);
    [apply Hnone|].
  destruct (contains ch_eq (strip l)); [|apply Hnone]. simpl.
  destruct (PyDict.get M _) as [v|]; simpl; [|apply Hnone].
  rewrite elem_of_union, elem_of_singleton. split.
  - intros [->|?]; [right; by exists v | by left].
  - intros [?|[v' [= -> _]]]; [by right | by left].
Qed.

Lemma loop_new_lines st D :
  new_lines (foldl (loop_body M) st D)
  = new_lines st ++ (rewrite_line M <$> D).
Proof.
  revert st. induction D as [|l D IH]; intros st; simpl.
  - by rewrite app_nil_r.
  - by rewrite IH, loop_body_new_lines, <- app_assoc.
Qed.

Lemma loop_updated_keys st D k :
  k ∈ updated_keys (foldl (loop_body M) st D) ↔
  k ∈ updated_keys st ∨ ∃ l v, l ∈ D ∧ managed_item M l = Some (k, v).
Proof.
  revert st. induction D as [|l D IH]; intros st; simpl.
  - split; [by left | intros [?|(l & v & Hl & _)]; [done|]].
    by apply elem_of_nil in Hl.
  - rewrite IH, loop_body_updated_keys. split.
    + intros [[?|[v Hv]]|(l' & v & Hl & Hv)]; [by left|right..].
      * exists l, v. split; [left|done].
      * exists l', v. split; [by right|done].
    + intros [?|(l' & v & Hl & Hv)]; [by left; left|].
      apply elem_of_cons in Hl as [->|Hl]; [left; right; by exists v|].
      right. by exists l', v.
Qed.

Lemma append_missing_spec U nl its :
  foldl (append_missing U) nl its
  = nl ++ (uncurry key_value_line <$> filter (λ kv, kv.1 ∉ U) its).
Proof.
  revert nl. induction its as [|[k v] its IH]; intros nl; simpl.
  - by rewrite app_nil_r.
  - rewrite IH. unfold append_missing. simpl.
    rewrite filter_cons. simpl. destruct (decide (k ∈ U)) as [Hk|Hk].
    + rewrite decide_False; [done|]. by intros ?.
    + rewrite decide_True by done. by rewrite <- app_assoc.
Qed.

Lemma get_Some_elem_of (d : PyDict.dict) k v :
  PyDict.get d k = Some v → (k, v) ∈ d.
Proof.
  induction d as [|[k' v'] d IH]; simpl; [done|].
  destruct (decide (k' = k)) as [->|].
  - intros [= ->]. left.
  - intros H. right. by apply IH.
Qed.

Lemma get_is_Some (d : PyDict.dict) k :
  k ∈ PyDict.keys d → is_Some (PyDict.get d k).
Proof.
  unfold PyDict.keys. induction d as [|[k' v'] d IH]; simpl.
  - by intros ?%elem_of_nil.
  - destruct (decide (k' = k)); [by eexists|].
    intros [?|?]%elem_of_cons; [done | by apply IH].
Qed.

Lemma get_NoDup (d : PyDict.dict) k v :
  NoDup (PyDict.keys d) → (k, v) ∈ d → PyDict.get d k = Some v.
Proof.
  unfold PyDict.keys. induction d as [|[k' v'] d IH]; simpl.
  - by intros _ ?%elem_of_nil.
  - intros [Hk' Hd]%NoDup_cons [[= <- <-]|Hin]%elem_of_cons.
    + by rewrite decide_True.
    + rewrite decide_False; [by apply IH|].
      intros ->. apply Hk'. apply list_elem_of_fmap. by exists (k, v).
Qed.

Lemma filter_iff_elem_of {A} (P1 P2 : A → Prop)
    `{!∀ x, Decision (P1 x), !∀ x, Decision (P2 x)} (l : list A) :
  (∀ x, x ∈ l → P1 x ↔ P2 x) → filter P1 l = filter P2 l.
Proof.
  induction l as [|a l IH]; intros Hiff; [done|].
  rewrite !filter_cons, IH.
  - destruct (decide (P1 a)) as [Ha|Ha].
    + rewrite decide_True; [done|]. apply (Hiff a); [left | done].
    + rewrite decide_False; [done|]. intros Ha'. apply Ha.
      apply (Hiff a); [left | done].
  - intros x Hx. apply Hiff. by right.
Qed.

(** The patcher in one equation: every line rewritten in place, then the
    items no line carried. *)
Lemma patch_lines_spec D :
  patch_lines M D
  = (rewrite_line M <$> D) ++ (uncurry key_value_line <$> missing_items M D).
Proof.
  unfold patch_lines. rewrite append_missing_spec, loop_new_lines. simpl.
  f_equal. f_equal. unfold missing_items, PyDict.items.
  apply filter_iff_elem_of. intros [k v] Hkv. simpl.
  rewrite loop_updated_keys. unfold key_present. rewrite Exists_exists.
  split.
  - intros Hn (l & Hl & Hk). apply Hn. right.
    destruct (get_is_Some M k) as [v' Hv'].
    { apply list_elem_of_fmap. by exists (k, v). }
    exists l, v'. split; [done|]. by apply managed_item_Some.
  - intros Hn [?%elem_of_empty|(l & v' & Hl & [Hk _]%managed_item_Some)];
      [done|].
    apply Hn. by exists l.
Qed.

End Loops.

(** ** Counting keys *)

Section Counting.

Lemma key_count_nil k : key_count k [] = 0%nat.
Proof. done. Qed.

Lemma key_count_cons k l D :
  key_count k (l :: D)
  = ((if decide (line_key l = Some k) then 1 else 0) + key_count k D)%nat.
Proof.
  unfold key_count. rewrite filter_cons.
  by destruct (decide (line_key l = Some k)).
Qed.

Lemma key_count_app k D1 D2 :
  key_count k (D1 ++ D2) = (key_count k D1 + key_count k D2)%nat.
Proof. unfold key_count. by rewrite filter_app, length_app. Qed.

Lemma key_count_rewrite M k D :
  key_count k (rewrite_line M <$> D) = key_count k D.
Proof.
  induction D as [|l D IH]; [done|].
  rewrite fmap_cons, !key_count_cons, IH.
  by rewrite line_key_rewrite_line.
Qed.

Lemma key_present_count k D : key_present k D ↔ (0 < key_count k D)%nat.
Proof.
  unfold key_present. induction D as [|l D IH].
  - rewrite Exists_nil, key_count_nil. lia.
  - rewrite Exists_cons, key_count_cons, IH.
    destruct (decide (line_key l = Some k)) as [He|He]; simpl.
    + split; [lia | by left].
    + split; [intros [?|?]; [done | lia] | right; lia].
Qed.

Lemma key_present_lookup k D :
  key_present k D ↔ ∃ i l, D !! i = Some l ∧ line_key l = Some k.
Proof.
  unfold key_present. rewrite Exists_exists. split.
  - intros (l & [i Hi]%list_elem_of_lookup & Hk). by exists i, l.
  - intros (i & l & Hi & Hk). exists l. split; [|done].
    by eapply list_elem_of_lookup_2.
Qed.

Lemma keys_ok_filter (P : list Z * list Z → Prop)
    `{!∀ x, Decision (P x)} (M : PyDict.dict) :
  keys_ok M → keys_ok (filter P M).
Proof.
  unfold keys_ok, PyDict.keys. induction M as [|[k v] M IH]; [done|].
  rewrite fmap_cons, NoDup_cons, Forall_cons. simpl.
  intros [[Hk Hnd] [Hsh Hall]]. destruct (IH (conj Hnd Hall)) as [IH1 IH2].
  rewrite filter_cons. destruct (decide (P (k, v))); [|done].
  rewrite fmap_cons, NoDup_cons, Forall_cons. simpl. split_and!; [|done..].
  intros (kv & Hkv & [_ Hin]%list_elem_of_filter)%list_elem_of_fmap.
  apply Hk. apply list_elem_of_fmap. by exists kv.
Qed.

Lemma key_count_key_value_lines (its : PyDict.dict) k :
  keys_ok its →
  key_count k (uncurry key_value_line <$> its)
  = if decide (k ∈ PyDict.keys its) then 1%nat else 0%nat.
Proof.
  unfold keys_ok, PyDict.keys. induction its as [|[k' v'] its IH].
  - intros _. rewrite decide_False; [done|]. by intros ?%elem_of_nil.
  - rewrite !fmap_cons, NoDup_cons, Forall_cons. simpl.
    intros [[Hk' Hnd] [Hsh Hall]].
    rewrite key_count_cons, (IH (conj Hnd Hall)).
    rewrite line_key_key_value_line by done.
    destruct (decide (k' = k)) as [->|Hne].
    + rewrite decide_True by done. rewrite (decide_False (P := k ∈ _)) by done.
      rewrite decide_True; [done | left].
    + rewrite decide_False by congruence. simpl.
      destruct (decide (k ∈ its.*1)) as [Hin|Hin].
      * rewrite decide_True; [done | by right].
      * rewrite decide_False; [done|]. by intros [?|?]%elem_of_cons.
Qed.

Lemma filter_nil_Forall {A} (P : A → Prop) `{!∀ x, Decision (P x)} l :
  Forall (λ x, ¬ P x) l → filter P l = [].
Proof.
  induction 1 as [|x l Hx _ IH]; [done|].
  by rewrite filter_cons_False.
Qed.

End Counting.

(** ** The patcher on a dictionary of well-shaped keys *)

Section Patcher.

Context (M : PyDict.dict) (HM : keys_ok M).

Lemma keys_ok_shaped k v : (k, v) ∈ M → key_shaped k.
Proof.
  intros Hin. destruct HM as [_ Hall]. rewrite Forall_forall in Hall.
  apply Hall. apply list_elem_of_fmap. by exists (k, v).
Qed.

Lemma rewrite_key_value_line k v :
  (k, v) ∈ M → rewrite_line M (key_value_line k v) = key_value_line k v.
Proof.
  intros Hin. unfold rewrite_line.
  assert (managed_item M (key_value_line k v) = Some (k, v)) as ->; [|done].
  apply managed_item_Some. split.
  - apply line_key_key_value_line. by eapply keys_ok_shaped.
  - apply get_NoDup; [apply HM | done].
Qed.

Lemma missing_items_elem_of D k v :
  (k, v) ∈ missing_items M D ↔ (k, v) ∈ M ∧ ¬ key_present k D.
Proof.
  unfold missing_items, PyDict.items. rewrite list_elem_of_filter. simpl.
  split; intros [? ?]; by split.
Qed.

Lemma key_present_patch_lines D k v :
  (k, v) ∈ M → key_present k (patch_lines M D).
Proof.
  intros Hin. rewrite patch_lines_spec. apply key_present_count.
  rewrite key_count_app, key_count_rewrite.
  destruct (decide (key_present k D)) as [Hp|Hp].
  - apply key_present_count in Hp. lia.
  - rewrite key_count_key_value_lines by by apply keys_ok_filter.
    rewrite decide_True; [lia|]. apply list_elem_of_fmap.
    exists (k, v). split; [done|]. by apply missing_items_elem_of.
Qed.

Lemma missing_items_patch_lines D : missing_items M (patch_lines M D) = [].
Proof.
  unfold missing_items at 1. apply filter_nil_Forall, Forall_forall.
  intros [k v] Hin Hn. apply Hn. by eapply key_present_patch_lines.
Qed.

Lemma patch_twice_keys_ok D :
  patch_lines M (patch_lines M D) = patch_lines M D.
Proof.
  rewrite (patch_lines_spec M (patch_lines M D)).
  rewrite missing_items_patch_lines, app_nil_r.
  rewrite patch_lines_spec, fmap_app. f_equal.
  - rewrite <- list_fmap_compose. apply list_fmap_ext.
    intros i l _. apply rewrite_line_idemp.
  - rewrite <- list_fmap_compose. apply list_fmap_ext.
    intros i [k v] Hi%list_elem_of_lookup_2. simpl.
    apply rewrite_key_value_line.
    by apply missing_items_elem_of in Hi as [Hi _].
Qed.

Lemma patch_lines_key_count D k v :
  (k, v) ∈ M → key_count k (patch_lines M D) = Nat.max 1 (key_count k D).
Proof.
  intros Hin. rewrite patch_lines_spec, key_count_app, key_count_rewrite.
  rewrite key_count_key_value_lines by by apply keys_ok_filter.
  destruct (decide (key_present k D)) as [Hp|Hp].
  - rewrite decide_False.
    + apply key_present_count in Hp. lia.
    + intros ([k' v'] & -> & [_ Hn]%missing_items_elem_of)%list_elem_of_fmap;
        done.
  - rewrite decide_True.
    + rewrite key_present_count in Hp. lia.
    + apply list_elem_of_fmap. exists (k, v). split; [done|].
      by apply missing_items_elem_of.
Qed.

Lemma patch_lines_key_line D k v j line :
  (k, v) ∈ M → patch_lines M D !! j = Some line → line_key line = Some k →
  line = key_value_line k v.
Proof.
  intros Hin Hj Hk. rewrite patch_lines_spec in Hj.
  assert (PyDict.get M k = Some v) as Hget
    by (apply get_NoDup; [apply HM | done]).
  apply list_elem_of_lookup_2 in Hj. apply elem_of_app in Hj as [Hj|Hj].
  - apply list_elem_of_fmap in Hj as (l & -> & _).
    rewrite line_key_rewrite_line in Hk. unfold rewrite_line.
    assert (managed_item M l = Some (k, v)) as ->; [|done].
    by apply managed_item_Some.
  - apply list_elem_of_fmap in Hj as ([k' v'] & -> & Hin').
    apply missing_items_elem_of in Hin' as [Hin' _].
    simpl in Hk. rewrite line_key_key_value_line in Hk
      by by eapply keys_ok_shaped.
    injection Hk as ->. simpl. f_equal.
    apply get_NoDup in Hin'; [congruence | apply HM].
Qed.

Lemma patch_lines_in_place D k v j line :
  PyDict.get M k = Some v → D !! j = Some line → line_key line = Some k →
  patch_lines M D !! j = Some (key_value_line k v).
Proof.
  intros Hget Hj Hk. rewrite patch_lines_spec.
  rewrite lookup_app_l by (rewrite length_fmap; by eapply lookup_lt_Some).
  rewrite list_lookup_fmap, Hj. simpl. unfold rewrite_line.
  assert (managed_item M line = Some (k, v)) as ->; [|done].
  by apply managed_item_Some.
Qed.

Lemma patch_lines_appended D k v :
  (k, v) ∈ M → ¬ key_present k D →
  ∃ j, (length D ≤ j)%nat ∧ patch_lines M D !! j = Some (key_value_line k v).
Proof.
  intros Hin Hp. rewrite patch_lines_spec.
  assert ((k, v) ∈ missing_items M D) as [j Hj]%list_elem_of_lookup
    by by apply missing_items_elem_of.
  exists (length (rewrite_line M <$> D) + j)%nat. split.
  - rewrite length_fmap. lia.
  - rewrite lookup_app_r by lia.
    replace (_ + j - _)%nat with j by lia.
    by rewrite list_lookup_fmap, Hj.
Qed.

(** The line of a managed key tells its value. *)
Lemma patch_lines_value D k v :
  (k, v) ∈ M → key_value_line k v ∈ patch_lines M D.
Proof.
  intros Hin. destruct (decide (key_present k D)) as [Hp|Hp].
  - apply key_present_lookup in Hp as (j & l & Hj & Hk).
    eapply list_elem_of_lookup_2, patch_lines_in_place; [|done..].
    apply get_NoDup; [apply HM | done].
  - destruct (patch_lines_appended D k v Hin Hp) as (j & _ & Hj).
    by eapply list_elem_of_lookup_2.
Qed.

End Patcher.

(** ** The dictionary of [update_server_properties] *)

Section ResourcePackKeys.

Context (escaped_url hash_str pack_uuid : list Z).

Lemma resource_pack_keys_ok :
  keys_ok (resource_pack_keys escaped_url hash_str pack_uuid).
Proof.
  split; unfold PyDict.keys, resource_pack_keys; simpl.
  - apply (bool_decide_unpack _). by vm_compute.
  - repeat constructor; by vm_compute.
Qed.

End ResourcePackKeys.

(** ** Preservation, completeness, idempotence *)

(** C1. A line that is blank, a comment, without ['='] or with an
    unmanaged key is in the output of the patcher at the index it has in
    the input, character for character; so such lines keep their
    relative order as well. *)
Theorem unmanaged_lines_preserved (M : PyDict.dict) (D : list (list Z))
    (i : nat) (line : list Z) :
  D !! i = Some line → unmanaged M line →
  patch_lines M D !! i = Some line.
Proof.
  intros Hi Hu. rewrite patch_lines_spec.
  rewrite lookup_app_l by (rewrite length_fmap; by eapply lookup_lt_Some).
  rewrite list_lookup_fmap, Hi. simpl. by rewrite rewrite_line_unmanaged.
Qed.

Lemma unmanaged_lines_preserved_witness :
  example_document !! 2%nat = Some (lit "server-port=25565" ++ NL)
  ∧ unmanaged example_managed (lit "server-port=25565" ++ NL)
  ∧ patch_lines example_managed example_document !! 2%nat
    = Some (lit "server-port=25565" ++ NL).
Proof.
  assert (unmanaged example_managed (lit "server-port=25565" ++ NL)) as Hu
    by (right; right; right; reflexivity).
  split; [reflexivity|]. split; [exact Hu|].
  exact (unmanaged_lines_preserved example_managed example_document 2
           (lit "server-port=25565" ++ NL) eq_refl Hu).
Defined.

(** C3. Patching is idempotent: with the dictionary the function builds,
    whatever the three values, patching the patched lines gives the
    patched lines. *)
Theorem patch_lines_idempotent (escaped_url hash_str pack_uuid : list Z)
    (D : list (list Z)) :
  let M := resource_pack_keys escaped_url hash_str pack_uuid in
  patch_lines M (patch_lines M D) = patch_lines M D.
Proof. apply patch_twice_keys_ok, resource_pack_keys_ok. Qed.

(** C4. After the pass, which appends one line per input line, the keys
    that no [key=value] line of the input carried are appended as
    [key=value] lines in the order of the dictionary: [resource-pack],
    then [resource-pack-sha1], then [resource-pack-id]. *)
Theorem missing_keys_appended_in_order
    (escaped_url hash_str pack_uuid : list Z) (D : list (list Z)) :
  let M := resource_pack_keys escaped_url hash_str pack_uuid in
  let st := foldl (loop_body M) {| updated_keys := ∅; new_lines := [] |} D in
  length (new_lines st) = length D
  ∧ patch_lines M D
    = new_lines st ++ (uncurry key_value_line <$> missing_items M D)
  ∧ missing_items M D
    = (if decide (key_present (lit "resource-pack") D) then []
       else [(lit "resource-pack", escaped_url)])
      ++ (if decide (key_present (lit "resource-pack-sha1") D) then []
          else [(lit "resource-pack-sha1", hash_str)])
      ++ (if decide (key_present (lit "resource-pack-id") D) then []
          else [(lit "resource-pack-id", pack_uuid)]).
Proof.
  intros M st. subst st. rewrite loop_new_lines. simpl. split_and!.
  - by rewrite length_fmap.
  - apply patch_lines_spec.
  - unfold missing_items, M, resource_pack_keys, PyDict.items.
    rewrite !filter_cons, filter_nil. simpl.
    by repeat case_decide.
Qed.

(** C9. A line of the output that stands where a managed line stood, or
    after the end of the input, is exactly [key=value] followed by a
    newline, for an item of the dictionary whose key is trimmed; in the
    first case the key is the one read off the input line, whose own
    blanks and line ending leave no trace. *)
Theorem managed_lines_normalised
    (escaped_url hash_str pack_uuid : list Z) (D : list (list Z))
    (i : nat) (line : list Z) :
  let M := resource_pack_keys escaped_url hash_str pack_uuid in
  patch_lines M D !! i = Some line →
  (length D ≤ i)%nat ∨ (∃ l, D !! i = Some l ∧ ¬ unmanaged M l) →
  ∃ k v, (k, v) ∈ PyDict.items M
         ∧ strip k = k
         ∧ line = k ++ [ch_eq] ++ v ++ NL
         ∧ ∀ l, D !! i = Some l → line_key l = Some k.
Proof.
  intros M Hi Hcase. rewrite patch_lines_spec in Hi.
  pose proof (resource_pack_keys_ok escaped_url hash_str pack_uuid) as HM.
  destruct Hcase as [Hge|(l & Hl & Hu)].
  - rewrite lookup_app_r in Hi by by rewrite length_fmap.
    apply list_lookup_fmap_Some in Hi as ([k v] & -> & Hkv).
    apply list_elem_of_lookup_2, missing_items_elem_of in Hkv as [Hin _].
    exists k, v. split_and!; [done| |done|].
    + by destruct (keys_ok_shaped _ HM k v Hin).
    + intros l Hl. apply lookup_lt_Some in Hl. lia.
  - rewrite lookup_app_l in Hi
      by (rewrite length_fmap; by eapply lookup_lt_Some).
    rewrite list_lookup_fmap, Hl in Hi. injection Hi as <-.
    rewrite unmanaged_managed_item in Hu. unfold rewrite_line.
    destruct (managed_item M l) as [[k v]|] eqn:Hm; [|done].
    apply managed_item_Some in Hm as [Hk Hv].
    exists k, v. split_and!; [|  |done|].
    + by apply get_Some_elem_of.
    + by destruct (line_key_shaped _ _ Hk).
    + intros l' Hl'. congruence.
Qed.

Lemma managed_lines_normalised_witness :
  let M := example_managed in
  patch_lines M twice_document !! 1%nat
    = Some (lit "resource-pack=new\:url" ++ NL)
  ∧ twice_document !! 1%nat = Some (lit "  resource-pack = b")
  ∧ ¬ unmanaged M (lit "  resource-pack = b")
  ∧ ∃ k v, (k, v) ∈ PyDict.items M
           ∧ strip k = k
           ∧ lit "resource-pack=new\:url" ++ NL = k ++ [ch_eq] ++ v ++ NL
           ∧ ∀ l, twice_document !! 1%nat = Some l → line_key l = Some k.
Proof.
  intros M.
  assert (¬ unmanaged M (lit "  resource-pack = b")) as Hu.
  { rewrite unmanaged_managed_item. by vm_compute. }
  split; [reflexivity|]. split; [reflexivity|]. split; [exact Hu|].
  apply (managed_lines_normalised (lit "new\:url") (lit "abcd1234")
           (lit "11111111-1111-1111-1111-111111111111")
           twice_document 1 _ eq_refl).
  right. exists (lit "  resource-pack = b"). split; [reflexivity | exact Hu].
Defined.

(** The claim C2 as the specification words it: each managed key on
    exactly one line of the output. *)
Lemma managed_key_on_two_lines :
  let out := patch_lines example_managed twice_document in
  out = [lit "resource-pack=new\:url" ++ NL;
         lit "resource-pack=new\:url" ++ NL;
         lit "resource-pack-sha1=abcd1234" ++ NL;
         lit "resource-pack-id=11111111-1111-1111-1111-111111111111" ++ NL]
  ∧ (lit "resource-pack", lit "new\:url") ∈ PyDict.items example_managed
  ∧ key_count (lit "resource-pack") out = 2%nat
  ∧ key_count (lit "resource-pack") out ≠ 1%nat.
Proof.
  simpl. split; [by vm_compute|]. split; [left|].
  split; [by vm_compute|]. by vm_compute.
Qed.

(** C2, amended. Each managed key is on at least one line of the output:
    on as many lines as in the input, at the same places (the first
    among them), when the input has it, and otherwise on one line after
    the input's. Every such line is [key=value] with the mapped value. *)
Theorem managed_keys_complete
    (escaped_url hash_str pack_uuid : list Z) (D : list (list Z))
    (k v : list Z) :
  let M := resource_pack_keys escaped_url hash_str pack_uuid in
  let out := patch_lines M D in
  (k, v) ∈ PyDict.items M →
  key_count k out = Nat.max 1 (key_count k D)
  ∧ (∀ j line, out !! j = Some line → line_key line = Some k →
       line = key_value_line k v)
  ∧ (∀ j line, D !! j = Some line → line_key line = Some k →
       out !! j = Some (key_value_line k v))
  ∧ (¬ key_present k D →
       ∃ j, (length D ≤ j)%nat ∧ out !! j = Some (key_value_line k v)).
Proof.
  intros M out Hin.
  pose proof (resource_pack_keys_ok escaped_url hash_str pack_uuid) as HM.
  split_and!.
  - by eapply patch_lines_key_count.
  - intros j line. by apply patch_lines_key_line.
  - intros j line. apply patch_lines_in_place, get_NoDup; [apply HM | done].
  - by apply patch_lines_appended.
Qed.

Lemma managed_keys_complete_witness :
  let M := example_managed in
  let out := patch_lines M twice_document in
  let k := lit "resource-pack" in
  let v := lit "new\:url" in
  (k, v) ∈ PyDict.items M
  ∧ key_count k out = Nat.max 1 (key_count k twice_document)
  ∧ (∀ j line, out !! j = Some line → line_key line = Some k →
       line = key_value_line k v)
  ∧ (∀ j line, twice_document !! j = Some line → line_key line = Some k →
       out !! j = Some (key_value_line k v))
  ∧ (¬ key_present k twice_document →
       ∃ j, (length twice_document ≤ j)%nat
            ∧ out !! j = Some (key_value_line k v)).
Proof.
  intros M out k v.
  assert ((k, v) ∈ PyDict.items M) as Hin by left.
  split; [exact Hin|].
  exact (managed_keys_complete (lit "new\:url") (lit "abcd1234")
           (lit "11111111-1111-1111-1111-111111111111")
           twice_document k v Hin).
Defined.

(** ** Escaping colons *)

Section Escaping.

Lemma replace_char_cons old new c s :
  replace [old] new (c :: s)
  = if old =? c then new ++ replace [old] new s else c :: replace [old] new s.
Proof. unfold replace. cbn [replace_from]. by rewrite startswith_char. Qed.

Lemma colons_escaped_cons c url :
  colons_escaped (c :: url)
  = (if c =? ch_colon then [ch_backslash; ch_colon] else [c])
      ++ colons_escaped url.
Proof. done. Qed.

(** The call of [str.replace] does what the specification says. *)
Lemma escape_url_colons_escaped url : escape_url url = colons_escaped url.
Proof.
  unfold escape_url. induction url as [|c url IH]; [done|].
  rewrite replace_char_cons, colons_escaped_cons, IH.
  rewrite (Z.eqb_sym ch_colon c). by destruct (c =? ch_colon).
Qed.

Lemma colons_escaped_length url :
  (length url ≤ length (colons_escaped url))%nat
  ∧ (contains ch_colon url = true →
     (length url < length (colons_escaped url))%nat).
Proof.
  induction url as [|c url [IH1 IH2]]; [done|].
  rewrite colons_escaped_cons. simpl contains.
  destruct (c =? ch_colon); simpl; [lia|].
  split; [lia|]. intros H. apply IH2 in H. lia.
Qed.

Lemma contains_colons_escaped url :
  contains ch_colon (colons_escaped url) = contains ch_colon url.
Proof.
  induction url as [|c url IH]; [done|].
  rewrite colons_escaped_cons, contains_app, IH. simpl contains.
  destruct (c =? ch_colon) eqn:Hc; [done|].
  simpl. by rewrite Hc.
Qed.

Lemma key_value_line_inj k v1 v2 :
  key_value_line k v1 = key_value_line k v2 → v1 = v2.
Proof.
  unfold key_value_line. intros H.
  apply app_inv_head in H. apply app_inv_head in H.
  by apply app_inv_tail in H.
Qed.

End Escaping.

(** C10. Escaping is not idempotent: a URL with a colon, once escaped,
    changes when it is escaped again (the backslash stays and the colon
    gets another one), and the patcher run on the escaped value enforces
    other lines than the run on the URL. *)
Theorem escape_url_not_idempotent (url : list Z) :
  contains ch_colon url = true →
  escape_url (escape_url url) ≠ escape_url url
  ∧ escape_url (escape_url [ch_colon])
    = [ch_backslash; ch_backslash; ch_colon]
  ∧ ∀ hash_str pack_uuid D,
      patch_lines
        (resource_pack_keys (escape_url (escape_url url)) hash_str pack_uuid)
        D
      ≠ patch_lines
          (resource_pack_keys (escape_url url) hash_str pack_uuid) D.
Proof.
  intros Hc.
  assert (escape_url (escape_url url) ≠ escape_url url) as Hne.
  { rewrite !escape_url_colons_escaped. intros Heq.
    apply (f_equal length) in Heq.
    rewrite <- contains_colons_escaped in Hc.
    apply colons_escaped_length in Hc. lia. }
  split; [done|]. split; [done|].
  intros hash_str pack_uuid D Heq.
  set (v2 := escape_url (escape_url url)) in *.
  set (v1 := escape_url url) in *.
  pose proof (patch_lines_value _ (resource_pack_keys_ok v2 hash_str pack_uuid)
                D (lit "resource-pack") v2) as H2.
  rewrite Heq in H2.
  assert (key_value_line (lit "resource-pack") v2
          ∈ patch_lines (resource_pack_keys v1 hash_str pack_uuid) D) as Hin
    by (apply H2; left).
  apply list_elem_of_lookup in Hin as [j Hj].
  pose proof (resource_pack_keys_ok v1 hash_str pack_uuid) as HM1.
  eapply (patch_lines_key_line _ HM1 D (lit "resource-pack") v1) in Hj.
  - by apply key_value_line_inj in Hj.
  - left.
  - apply line_key_key_value_line. by vm_compute.
Qed.

Lemma escape_url_not_idempotent_witness :
  contains ch_colon (lit "https://example.org/pack.zip") = true
  ∧ escape_url (escape_url (lit "https://example.org/pack.zip"))
    ≠ escape_url (lit "https://example.org/pack.zip").
Proof.
  split; [reflexivity|].
  exact (proj1 (escape_url_not_idempotent
                  (lit "https://example.org/pack.zip") eq_refl)).
Defined.

(** ** Bits and bytes *)

Section Bits.

Lemma fits_lt k n : 0 <= k → fits k n → 0 <= n < 2 ^ k.
Proof.
  intros Hk [Hn Hbits]. split; [done|].
  destruct (decide (n = 0)) as [->|Hne]; [by apply Z.pow_pos_nonneg|].
  apply Z.log2_lt_pow2; [lia|].
  destruct (decide (Z.log2 n < k)) as [|Hge]; [done|].
  assert (Z.testbit n (Z.log2 n) = true) as Hb by (apply Z.bit_log2; lia).
  rewrite Hbits in Hb by lia. done.
Qed.

Lemma lt_fits k n : 0 <= n < 2 ^ k → fits k n.
Proof.
  intros [Hn Hlt]. split; [done|]. intros i Hi.
  destruct (decide (n = 0)) as [->|Hne]; [apply Z.bits_0|].
  apply Z.bits_above_log2; [done|].
  assert (0 <= k).
  { destruct (decide (0 <= k)); [done|]. rewrite Z.pow_neg_r in Hlt; lia. }
  assert (Z.log2 n < k) by (apply Z.log2_lt_pow2; lia). lia.
Qed.

Lemma fits_mono k k' n : k <= k' → fits k n → fits k' n.
Proof. intros Hk [Hn Hbits]. split; [done|]. intros i Hi. apply Hbits. lia. Qed.

Lemma fits_lor k a b : fits k a → fits k b → fits k (Z.lor a b).
Proof.
  intros [Ha Hab] [Hb Hbb]. split; [by apply Z.lor_nonneg|].
  intros i Hi. by rewrite Z.lor_spec, Hab, Hbb.
Qed.

Lemma fits_land k a b : fits k a → fits k (Z.land a b).
Proof.
  intros [Ha Hab]. split; [apply Z.land_nonneg; by left|].
  intros i Hi. by rewrite Z.land_spec, Hab.
Qed.

Lemma fits_shiftl k a n : 0 <= n → fits k a → fits (k + n) (Z.shiftl a n).
Proof.
  intros Hn [Ha Hab]. split; [by apply Z.shiftl_nonneg|].
  intros i Hi. destruct (decide (0 <= i)); [|apply Z.testbit_neg_r; lia].
  rewrite Z.shiftl_spec by lia. apply Hab. lia.
Qed.

Lemma is_byte_fits b : is_byte b → fits 8 b.
Proof. intros Hb. by apply lt_fits. Qed.

Lemma from_bytes_fits_from acc k bs :
  0 <= k → fits k acc → Forall is_byte bs →
  fits (k + 8 * Z.of_nat (length bs))
       (foldl (λ acc b, Z.lor (Z.shiftl acc 8) b) acc bs).
Proof.
  intros Hk Hacc Hbs. revert acc k Hk Hacc.
  induction Hbs as [|b bs Hb _ IH]; intros acc k Hk Hacc; simpl.
  - by rewrite Z.add_0_r.
  - replace (k + 8 * Z.of_nat (S (length bs)))
      with ((k + 8) + 8 * Z.of_nat (length bs)) by lia.
    apply IH; [lia|]. apply fits_lor.
    + by apply fits_shiftl.
    + eapply fits_mono; [|by apply is_byte_fits]. lia.
Qed.

Lemma from_bytes_fits bs :
  Forall is_byte bs → fits (8 * Z.of_nat (length bs)) (Sha1.from_bytes bs).
Proof.
  intros Hbs. apply (from_bytes_fits_from 0 0 bs); [done| |done].
  split; [done|]. intros i _. apply Z.bits_0.
Qed.

Lemma to_bytes_is_byte n x : Forall is_byte (Sha1.to_bytes n x).
Proof.
  induction n as [|n IH]; simpl; constructor; [|done].
  by apply Z.mod_pos_bound.
Qed.

Lemma length_to_bytes n x : length (Sha1.to_bytes n x) = n.
Proof. induction n as [|n IH]; simpl; [done | by rewrite IH]. Qed.

Lemma digest_is_byte msg : Forall is_byte (Sha1.digest msg).
Proof.
  unfold Sha1.digest.
  destruct (foldl Sha1.compress _ _) as [[[[a b] c] d] e].
  repeat apply Forall_app_2; apply to_bytes_is_byte.
Qed.

Lemma length_digest msg : length (Sha1.digest msg) = 20%nat.
Proof.
  unfold Sha1.digest.
  destruct (foldl Sha1.compress _ _) as [[[[a b] c] d] e].
  by rewrite !length_app, !length_to_bytes.
Qed.

End Bits.

(** ** The UUID *)

Section UuidFacts.

Lemma of_bytes_fits bytes :
  Forall is_byte bytes → (length bytes ≤ 16)%nat →
  fits 128 (Uuid.int (Uuid.of_bytes bytes 5)).
Proof.
  intros Hb Hlen. unfold Uuid.of_bytes. simpl.
  apply fits_lor; [apply fits_land, fits_lor; [apply fits_land|]|].
  - eapply fits_mono; [|by apply from_bytes_fits]. lia.
  - by apply lt_fits.
  - by apply lt_fits.
Qed.

Lemma of_bytes_bit bytes n :
  0 <= n →
  Z.testbit (Uuid.int (Uuid.of_bytes bytes 5)) n
  = if decide (n = 62) then false
    else if decide (n = 63) then true
    else if decide (76 <= n <= 79) then Z.testbit 5 (n - 76)
    else Z.testbit (Sha1.from_bytes bytes) n.
Proof.
  intros Hn. unfold Uuid.of_bytes. simpl Uuid.int.
  change (Z.shiftl 61440 64) with (Z.shiftl (Z.ones 4) 76).
  change (Z.shiftl 49152 48) with (Z.shiftl (Z.ones 2) 62).
  change (Z.shiftl 32768 48) with (2 ^ 63).
  rewrite Z.lor_spec, Z.land_spec, Z.lor_spec, Z.land_spec.
  rewrite !Z.lnot_spec, !Z.shiftl_spec by done.
  destruct (decide (n = 62)) as [->|?]; [by rewrite andb_false_r|].
  destruct (decide (n = 63)) as [->|?]; [by rewrite orb_true_r|].
  rewrite Z.pow2_bits_false by lia. rewrite orb_false_r.
  destruct (decide (76 <= n <= 79)) as [Hv|Hv].
  - rewrite (Z.ones_spec_low 4) by lia. simpl negb.
    by rewrite andb_false_r.
  - destruct (decide (n < 76)).
    + rewrite (Z.testbit_neg_r 5), (Z.testbit_neg_r (Z.ones 4)) by lia.
      destruct (decide (n < 62)).
      * rewrite (Z.testbit_neg_r (Z.ones 2)) by lia. simpl.
        by rewrite orb_false_r, !andb_true_r.
      * rewrite (Z.ones_spec_high 2) by lia. simpl.
        by rewrite orb_false_r, !andb_true_r.
    + rewrite (Z.ones_spec_high 4), (Z.ones_spec_high 2) by lia.
      rewrite (Z.bits_above_log2 5) by (simpl; lia). simpl.
      by rewrite orb_false_r, !andb_true_r.
Qed.

Lemma of_bytes_version bytes : Uuid.version (Uuid.of_bytes bytes 5) = 5.
Proof.
  unfold Uuid.version. apply Z.bits_inj'. intros n Hn.
  rewrite Z.land_spec, Z.shiftr_spec by done.
  rewrite of_bytes_bit by lia. change 15 with (Z.ones 4).
  rewrite !decide_False by lia.
  destruct (decide (n < 4)).
  - rewrite decide_True by lia. rewrite Z.ones_spec_low by lia.
    rewrite andb_true_r. f_equal. lia.
  - rewrite Z.ones_spec_high by lia. rewrite andb_false_r.
    symmetry. apply Z.bits_above_log2; simpl; lia.
Qed.

Lemma of_bytes_rfc_4122 bytes :
  Uuid.is_rfc_4122 (Uuid.of_bytes bytes 5) = true.
Proof.
  unfold Uuid.is_rfc_4122.
  assert (Z.land (Uuid.int (Uuid.of_bytes bytes 5)) (Z.shiftl 32768 48)
          = 2 ^ 63) as ->.
  { apply Z.bits_inj'. intros n Hn. rewrite Z.land_spec, of_bytes_bit by done.
    change (Z.shiftl 32768 48) with (2 ^ 63).
    destruct (decide (n = 63)) as [->|?]; [done|].
    rewrite Z.pow2_bits_false by lia. by rewrite andb_false_r. }
  assert (Z.land (Uuid.int (Uuid.of_bytes bytes 5)) (Z.shiftl 16384 48)
          = 0) as ->; [|done].
  apply Z.bits_inj'. intros n Hn. rewrite Z.land_spec, of_bytes_bit by done.
  change (Z.shiftl 16384 48) with (2 ^ 62). rewrite Z.bits_0.
  destruct (decide (n = 62)) as [->|?]; [done|].
  rewrite Z.pow2_bits_false by lia. by rewrite andb_false_r.
Qed.

End UuidFacts.

(** ** Hexadecimal text *)

Section Hex.

Lemma hex_digit_is_hex d : 0 <= d < 16 → is_hex_digit (Uuid.hex_digit d).
Proof.
  intros Hd. unfold Uuid.hex_digit, is_hex_digit.
  destruct (Z.ltb_spec d 10); lia.
Qed.


Lemma hex_digits_length fuel n acc k :
  0 <= n < 16 ^ Z.of_nat k →
  (length (Uuid.hex_digits fuel n acc) ≤ length acc + Nat.max 1 k)%nat.
Proof.
  revert n acc k. induction fuel as [|fuel IH]; intros n acc k Hn; simpl.
  - lia.
  - destruct (Z.ltb_spec n 16) as [Hlt|Hge]; simpl; [lia|].
    destruct k as [|[|k]]; [simpl in Hn; lia..|].
    rewrite Nat2Z.inj_succ, Z.pow_succ_r in Hn by lia.
    specialize (IH (n / 16) (Uuid.hex_digit (n mod 16) :: acc) (S k)).
    simpl length in IH. etrans; [apply IH|lia].
    split; [apply Z.div_pos; lia|]. apply Z.div_lt_upper_bound; lia.
Qed.

Lemma hex_digits_is_hex fuel n acc :
  Forall is_hex_digit acc →
  Forall is_hex_digit (Uuid.hex_digits fuel n acc).
Proof.
  revert n acc. induction fuel as [|fuel IH]; intros n acc Hacc; simpl.
  - done.
  - assert (is_hex_digit (Uuid.hex_digit (n mod 16))) as Hd
      by (apply hex_digit_is_hex; by apply Z.mod_pos_bound).
    destruct (n <? 16); [by constructor|]. apply IH. by constructor.
Qed.





Lemma format_032x_is_hex n : Forall is_hex_digit (Uuid.format_032x n).
Proof.
  unfold Uuid.format_032x. apply Forall_app_2.
  - apply Forall_replicate. unfold is_hex_digit. lia.
  - by apply hex_digits_is_hex.
Qed.

Lemma format_032x_length n :
  fits 128 n → length (Uuid.format_032x n) = 32%nat.
Proof.
  intros Hn%fits_lt; [|done]. unfold Uuid.format_032x.
  rewrite length_app, length_replicate.
  set (ds := Uuid.hex_digits _ _ _).
  assert (length ds ≤ 32)%nat as Hl; [|lia].
  by apply (hex_digits_length _ _ [] 32).
Qed.

End Hex.

(** ** The text of a UUID *)

Section UuidText.

Lemma is_hex_digit_not_minus c : is_hex_digit c → c ≠ ch_minus.
Proof. unfold is_hex_digit, ch_minus. lia. Qed.


Lemma to_str_pieces u :
  let hex := Uuid.format_032x (Uuid.int u) in
  Uuid.to_str u
  = take 8 hex ++ [ch_minus] ++ take 4 (drop 8 hex) ++ [ch_minus]
    ++ take 4 (drop 12 hex) ++ [ch_minus] ++ take 4 (drop 16 hex)
    ++ [ch_minus] ++ drop 20 hex
  ∧ hex = take 8 hex ++ take 4 (drop 8 hex) ++ take 4 (drop 12 hex)
          ++ take 4 (drop 16 hex) ++ drop 20 hex.
Proof.
  intros hex. split; [done|].
  rewrite <- (take_drop 8 hex) at 1. f_equal.
  rewrite <- (take_drop 4 (drop 8 hex)) at 1. f_equal.
  rewrite drop_drop. simpl.
  rewrite <- (take_drop 4 (drop 12 hex)) at 1. f_equal.
  rewrite drop_drop. simpl.
  rewrite <- (take_drop 4 (drop 16 hex)) at 1. f_equal.
  by rewrite drop_drop.
Qed.

Lemma to_str_length u :
  fits 128 (Uuid.int u) → length (Uuid.to_str u) = 36%nat.
Proof.
  intros Hu%format_032x_length.
  destruct (to_str_pieces u) as [-> _].
  rewrite !length_app, !length_take, !length_drop, Hu. done.
Qed.


Lemma to_str_hyphens u : hyphens (Uuid.to_str u) = 4%nat.
Proof.
  unfold hyphens. destruct (to_str_pieces u) as [-> _].
  assert (∀ l, Forall is_hex_digit l →
               filter (λ c, c = ch_minus) l = []) as Hnone.
  { intros l Hl. apply filter_nil_Forall.
    eapply Forall_impl; [done|]. apply is_hex_digit_not_minus. }
  pose proof (format_032x_is_hex (Uuid.int u)) as Hf.
  rewrite !filter_app.
  rewrite !(Hnone (take _ _)) by by repeat first
    [apply Forall_take | apply Forall_drop].
  rewrite (Hnone (drop 20 _)) by by apply Forall_drop.
  done.
Qed.


End UuidText.

(** ** The identity of a pack *)

Section PackUuid.

Lemma encode_app a b :
  Utf8.encode (a ++ b)
  = match Utf8.encode a, Utf8.encode b with
    | Some x, Some y => Some (x ++ y)
    | _, _ => None
    end.
Proof.
  induction a as [|c a IH]; simpl.
  - by destruct (Utf8.encode b).
  - rewrite IH. destruct (Utf8.encode_char c) as [bs|]; [|done].
    destruct (Utf8.encode a), (Utf8.encode b); by rewrite ?app_assoc.
Qed.

Lemma uuid5_Some namespace name name_bytes :
  Utf8.encode name = Some name_bytes →
  Uuid.uuid5 namespace name
  = Some (Uuid.of_bytes
            (take 16 (Sha1.digest (Uuid.bytes namespace ++ name_bytes))) 5).
Proof. intros H. unfold Uuid.uuid5. by rewrite H. Qed.

Lemma uuid5_fits namespace name u :
  Uuid.uuid5 namespace name = Some u → fits 128 (Uuid.int u).
Proof.
  unfold Uuid.uuid5. destruct (Utf8.encode name) as [bs|]; [|done]. simpl.
  intros [= <-]. apply of_bytes_fits.
  - apply Forall_take, digest_is_byte.
  - rewrite length_take. lia.
Qed.

Lemma generate_pack_uuid_is_Some h :
  is_Some (generate_pack_uuid h) ↔ is_Some (Utf8.encode h).
Proof.
  unfold generate_pack_uuid, Uuid.uuid5. rewrite encode_app.
  destruct (Utf8.encode (lit "bitterharvest-pack-")) as [p|] eqn:Hp;
    [|by vm_compute in Hp].
  destruct (Utf8.encode h); simpl; split; by eauto || intros [? ?].
Qed.

End PackUuid.

(** C5. [generate_pack_uuid] is a function of the hash alone. On a hash
    that UTF-8 can encode it returns the text of the version-5 UUID of
    [NAMESPACE_DNS] and the name ["bitterharvest-pack-"] followed by the
    hash: 36 characters, four of them hyphens. *)
Theorem generate_pack_uuid_shape (hash_str : list Z) :
  is_Some (Utf8.encode hash_str) →
  ∃ u, Uuid.uuid5 Uuid.NAMESPACE_DNS (lit "bitterharvest-pack-" ++ hash_str)
       = Some u
       ∧ generate_pack_uuid hash_str = Some (Uuid.to_str u)
       ∧ (∀ v, generate_pack_uuid hash_str = Some v → v = Uuid.to_str u)
       ∧ Uuid.version u = 5
       ∧ Uuid.is_rfc_4122 u = true
       ∧ length (Uuid.to_str u) = 36%nat
       ∧ hyphens (Uuid.to_str u) = 4%nat.
Proof.
  intros [u Hu]%generate_pack_uuid_is_Some.
  unfold generate_pack_uuid in *.
  destruct (Uuid.uuid5 _ _) as [u'|] eqn:H5; [|done].
  exists u'. split; [done|]. split; [done|].
  split; [by intros v [= <-]|].
  pose proof (uuid5_fits _ _ _ H5) as Hfits.
  unfold Uuid.uuid5 in H5.
  destruct (Utf8.encode _) as [bs|]; [|done]. simpl in H5.
  injection H5 as <-. split_and!.
  - apply of_bytes_version.
  - apply of_bytes_rfc_4122.
  - by apply to_str_length.
  - apply to_str_hyphens.
Qed.

Lemma generate_pack_uuid_shape_witness :
  is_Some (Utf8.encode (lit "abc123"))
  ∧ generate_pack_uuid (lit "abc123")
    = Some (lit "3a2eef37-a344-5be0-902b-94d04a1208c9")
  ∧ ∃ u, Uuid.uuid5 Uuid.NAMESPACE_DNS
           (lit "bitterharvest-pack-" ++ lit "abc123") = Some u
         ∧ generate_pack_uuid (lit "abc123") = Some (Uuid.to_str u)
         ∧ (∀ v, generate_pack_uuid (lit "abc123") = Some v
                 → v = Uuid.to_str u)
         ∧ Uuid.version u = 5
         ∧ Uuid.is_rfc_4122 u = true
         ∧ length (Uuid.to_str u) = 36%nat
         ∧ hyphens (Uuid.to_str u) = 4%nat.
Proof.
  assert (is_Some (Utf8.encode (lit "abc123"))) as He by (by eexists).
  split; [exact He|]. split; [by vm_compute|].
  exact (generate_pack_uuid_shape (lit "abc123") He).
Defined.

(** ** Counting identities *)

Section Pigeonhole.



End Pigeonhole.

Section Collisions.




End Collisions.


(** ** UTF-8 is one-to-one *)

Section Utf8Injective.







End Utf8Injective.

Section Distinct.



End Distinct.



(** ** What can be encoded *)

Section Encodable.


Lemma encodable_ascii s : Forall (λ c, 0 <= c < 128) s → encodable s.
Proof.
  intros Hs. eapply Forall_impl; [done|]. intros c Hc. simpl in *.
  unfold Utf8.encode_char.
  destruct (Z.ltb_spec c 0); [lia|]. destruct (Z.ltb_spec c 128); [|lia].
  by eexists.
Qed.




Lemma encodable_NL : encodable NL.
Proof. apply encodable_ascii. repeat constructor; lia. Qed.










End Encodable.

(** ** [update_server_properties] *)

Section Update.

Lemma readlines_Some_exists w path lines :
  Io.readlines w path = Some lines →
  Io.path_exists w path = true
  ∧ ∃ content, Io.nodes w !! path = Some (Io.File content).
Proof.
  unfold Io.readlines, Io.path_exists.
  destruct (Io.nodes w !! path) as [[content|]|]; [|done..].
  intros _. split; [done | by eexists].
Qed.

(** The function, once the file is read and the identity derived. *)
Lemma update_server_properties_read w path url hash_str lines pack_uuid :
  Io.readlines w path = Some lines →
  generate_pack_uuid hash_str = Some pack_uuid →
  update_server_properties w path url hash_str
  = let '(w', ok) :=
      Io.open_w_writelines w path
        (patch_lines
           (resource_pack_keys (escape_url url) hash_str pack_uuid) lines) in
    (ok, w').
Proof.
  intros Hr Hu. unfold update_server_properties.
  destruct (readlines_Some_exists _ _ _ Hr) as [-> _]. simpl.
  by rewrite Hr, Hu.
Qed.



End Update.




(** C8. The dictionary that the function enforces holds, for
    [resource-pack], the URL with every colon replaced by a backslash and
    a colon, and for [resource-pack-sha1] and [resource-pack-id] the hash
    and the derived identity as they are. *)
Theorem pack_location_pre_escaped (w : Io.world)
    (path url hash_str : list Z) (lines : list (list Z))
    (pack_uuid : list Z) :
  Io.readlines w path = Some lines →
  generate_pack_uuid hash_str = Some pack_uuid →
  let M := [ (lit "resource-pack", colons_escaped url);
             (lit "resource-pack-sha1", hash_str);
             (lit "resource-pack-id", pack_uuid) ] in
  update_server_properties w path url hash_str
  = (let '(w', ok) := Io.open_w_writelines w path (patch_lines M lines) in
     (ok, w'))
  ∧ key_value_line (lit "resource-pack") (colons_escaped url)
    ∈ patch_lines M lines
  ∧ key_value_line (lit "resource-pack-sha1") hash_str ∈ patch_lines M lines
  ∧ key_value_line (lit "resource-pack-id") pack_uuid ∈ patch_lines M lines.
Proof.
  intros Hr Hu M.
  assert (M = resource_pack_keys (escape_url url) hash_str pack_uuid) as HM
    by (unfold M, resource_pack_keys; by rewrite escape_url_colons_escaped).
  pose proof (resource_pack_keys_ok (escape_url url) hash_str pack_uuid) as Hok.
  rewrite <- HM in Hok. split_and!.
  - rewrite HM. by apply update_server_properties_read.
  - apply patch_lines_value; [done | left].
  - apply patch_lines_value; [done | right; left].
  - apply patch_lines_value; [done | right; right; left].
Qed.

Lemma pack_location_pre_escaped_witness :
  let lines := [lit "resource-pack=old" ++ NL; lit "motd=hi" ++ NL] in
  let pack_uuid := lit "3a2eef37-a344-5be0-902b-94d04a1208c9" in
  let url := lit "https://example.org/pack.zip" in
  let M := [ (lit "resource-pack", colons_escaped url);
             (lit "resource-pack-sha1", lit "abc123");
             (lit "resource-pack-id", pack_uuid) ] in
  Io.readlines sample_world sample_path = Some lines
  ∧ generate_pack_uuid (lit "abc123") = Some pack_uuid
  ∧ colons_escaped url = lit "https\://example.org/pack.zip"
  ∧ key_value_line (lit "resource-pack") (colons_escaped url)
    ∈ patch_lines M lines.
Proof.
  intros lines pack_uuid url M.
  assert (Io.readlines sample_world sample_path = Some lines) as Hr.
  { unfold Io.readlines, sample_world. simpl Io.nodes.
    rewrite lookup_singleton_eq. by vm_compute. }
  assert (generate_pack_uuid (lit "abc123") = Some pack_uuid) as Hu
    by (by vm_compute).
  split; [exact Hr|]. split; [exact Hu|]. split; [by vm_compute|].
  exact (proj1 (proj2 (pack_location_pre_escaped sample_world sample_path
                         url (lit "abc123") lines pack_uuid Hr Hu))).
Defined.
